(** * download_utils: timecode parsing, download ranges and the progress hook

    A shallow embedding of
    [experiments/countdown-workflow/utils/download_utils.py].

    Python values are modelled as follows.
    - [str] is [string]; every [ascii] stands for one code point below
      U+0100.  Code points above U+00FF are outside the model.
    - [int] is [Z].
    - a [dict] with string keys is a [gmap string _]; the values of
      [ydl.params] and of a progress event that the module reads are [str].
    - the module global [_downloaded_file_path_global] and the records handed
      to [logger.info] form the module state, threaded through every function
      by the monad [M]; a raised exception keeps the state reached so far. *)

From Stdlib Require Import ZArith NArith String Ascii List Lia.
From Stdlib Require Import DecimalString DecimalPos DecimalZ.
From stdpp Require Import base option gmap strings list.

Local Open Scope string_scope.
Local Open Scope Z_scope.

(** ** Exceptions *)

Inductive exn_class := ValueError | KeyError.

(** The exceptions the module can raise, one constructor per raise site. *)
Inductive exn :=
| IntValueError (literal : string)          (* raised by [int(literal)] *)
| NotEnoughValues (expected got : nat)      (* "not enough values to unpack" *)
| TooManyValues (expected : nat)            (* "too many values to unpack" *)
| RaisedValueError (msg : string)           (* [raise ValueError(msg)] *)
| DictKeyError (key : string).              (* [d[key]] on a missing key *)

Definition class_of (e : exn) : exn_class :=
  match e with
  | IntValueError _ | NotEnoughValues _ _ | TooManyValues _ | RaisedValueError _ =>
      ValueError
  | DictKeyError _ => KeyError
  end.

(** ** Module state and the state-and-exception monad *)

Record module_state := ModuleState {
  _downloaded_file_path_global : option string;
  logger_info_records : list string
}.

(** Line 10: the global starts as [None]; nothing has been logged. *)
Definition initial_state : module_state :=
  {| _downloaded_file_path_global := None; logger_info_records := [] |}.

Definition M (A : Type) : Type := module_state -> (exn + A) * module_state.

#[global] Instance M_ret : MRet M := fun A (a : A) st => (inr a, st).

#[global] Instance M_bind : MBind M := fun A B (f : A -> M B) (c : M A) st =>
  match c st with
  | (inl e, st') => (inl e, st')
  | (inr a, st') => f a st'
  end.

Definition raise {A : Type} (e : exn) : M A := fun st => (inl e, st).

Definition lift {A : Type} (r : exn + A) : M A := fun st => (r, st).

Definition read_global : M (option string) :=
  fun st => (inr (_downloaded_file_path_global st), st).

Definition assign_global (v : option string) : M unit :=
  fun st => (inr tt, {| _downloaded_file_path_global := v;
                        logger_info_records := logger_info_records st |}).

Definition logger_info (msg : string) : M unit :=
  fun st => (inr tt, {| _downloaded_file_path_global := _downloaded_file_path_global st;
                        logger_info_records := logger_info_records st ++ [msg] |}).

(** [d[key]] *)
Definition getitem (d : gmap string string) (key : string) : M string :=
  match d !! key with
  | Some v => mret v
  | None => raise (DictKeyError key)
  end.

(** ** [str.split] with a one-character separator *)

Fixpoint str_split (sep : ascii) (s : string) : list string :=
  match s with
  | EmptyString => [EmptyString]
  | String c r =>
      if Ascii.eqb c sep then EmptyString :: str_split sep r
      else match str_split sep r with
           | f :: fs => String c f :: fs
           | [] => [String c EmptyString]
           end
  end.

(** ** [int(str)] in base 10, after CPython's [PyLong_FromString] *)

Section PyInt.

(** [sys.get_int_max_str_digits()]: 4300 by default, 0 when the limit is
    disabled or the interpreter predates it. *)
Variable int_max_str_digits : N.

(** Below this digit count the limit is never consulted. *)
Definition _PY_LONG_MAX_STR_DIGITS_THRESHOLD : N := 640.

(** The characters [int] skips around the literal: the ASCII white space
    (tab, LF, VT, FF, CR, space) and, of the code points from U+0080 to
    U+00FF, NEL and the no-break space, which are turned into a space before
    the scan. *)
Definition int_isspace (c : ascii) : bool :=
  let n := N_of_ascii c in
  ((9 <=? n) && (n <=? 13) || (n =? 32) || (n =? 133) || (n =? 160))%N.

Definition digit_value (c : ascii) : option Z :=
  let n := N_of_ascii c in
  if ((48 <=? n) && (n <=? 57))%N then Some (Z.of_N (n - 48)) else None.

Fixpoint skip_spaces (s : string) : string :=
  match s with
  | String c r => if int_isspace c then skip_spaces r else s
  | EmptyString => EmptyString
  end.

(** The scan over digits and underscores.  [prev] is the character before
    [p]; two underscores in a row and an underscore at the end are rejected.
    The result is the value read, the number of digits and what follows. *)
Fixpoint scan_digits (p : string) (prev : ascii) (acc : Z) (digits : N)
  : option (Z * N * string) :=
  match p with
  | EmptyString =>
      if Ascii.eqb prev "_" then None else Some (acc, digits, EmptyString)
  | String c r =>
      if Ascii.eqb c "_" then
        if Ascii.eqb prev "_" then None else scan_digits r c acc digits
      else
        match digit_value c with
        | Some d => scan_digits r c (10 * acc + d) (digits + 1)
        | None => if Ascii.eqb prev "_" then None else Some (acc, digits, p)
        end
  end.

(** An optional sign in front of the digits. *)
Definition split_sign (str : string) : Z * string :=
  match str with
  | String c r =>
      if Ascii.eqb c "+" then (1, r)
      else if Ascii.eqb c "-" then (-1, r)
      else (1, str)
  | EmptyString => (1, str)
  end.

Definition leading_underscore (str : string) : bool :=
  match str with
  | String c _ => Ascii.eqb c "_"
  | EmptyString => false
  end.

Definition py_int (s : string) : option Z :=
  let (sign, str) := split_sign (skip_spaces s) in
  if leading_underscore str then None
  else
    match scan_digits str zero 0 0 with
    | None => None
    | Some (v, digits, rest) =>
        if (digits =? 0)%N then None              (* no digit at all *)
        else
          match skip_spaces rest with
          | String _ _ => None                    (* something follows *)
          | EmptyString =>
              if ((_PY_LONG_MAX_STR_DIGITS_THRESHOLD <? digits)
                  && (0 <? int_max_str_digits)
                  && (int_max_str_digits <? digits))%N
              then None                           (* "Exceeds the limit" *)
              else Some (sign * v)
          end
    end.

(** ** [map(int, fields)] consumed by the unpacking assignment *)

(** One [next()] on the [map] object: [inr None] is [StopIteration]. *)
Definition next_int (it : list string) : exn + option (Z * list string) :=
  match it with
  | [] => inr None
  | x :: rest =>
      match py_int x with
      | Some v => inr (Some (v, rest))
      | None => inl (IntValueError x)
      end
  end.

(** [h, m, s = it]: three values are drawn, then a fourth [next()] checks
    that the iterator is exhausted. *)
Definition unpack3 (it : list string) : exn + (Z * Z * Z) :=
  match next_int it with
  | inl e => inl e
  | inr None => inl (NotEnoughValues 3 0)
  | inr (Some (h, it1)) =>
  match next_int it1 with
  | inl e => inl e
  | inr None => inl (NotEnoughValues 3 1)
  | inr (Some (m, it2)) =>
  match next_int it2 with
  | inl e => inl e
  | inr None => inl (NotEnoughValues 3 2)
  | inr (Some (s, it3)) =>
  match next_int it3 with
  | inl e => inl e
  | inr (Some _) => inl (TooManyValues 3)
  | inr None => inr (h, m, s)
  end end end end.

(** ** The module's functions *)

(** Lines 12-15. *)
Definition parse_time_to_seconds (time_str : string) : M Z :=
  '(h, m, s) ← lift (unpack3 (str_split ":" time_str));
  mret (h * 3600 + m * 60 + s).

Record YoutubeDL := { params : gmap string string }.

(** [not v] for [v : Optional[str]]. *)
Definition py_not (v : option string) : bool :=
  match v with
  | None => true
  | Some s => String.eqb s ""
  end.

Definition missing_parameter_message : string :=
  "start_time and end_time must be provided in ydl.params for download_ranges_callback.".

(** Lines 17-30.  The returned [dict] has the keys ['start_time'] and
    ['end_time']. *)
Definition download_ranges_callback (info_dict : gmap string string) (ydl : YoutubeDL)
  : M (list (gmap string Z)) :=
  let start_time := params ydl !! "start_time" in
  let end_time := params ydl !! "end_time" in
  if py_not start_time || py_not end_time then
    raise (RaisedValueError missing_parameter_message)
  else
    (* past the guard both are [Some] *)
    start_seconds ← parse_time_to_seconds (default "" start_time);
    end_seconds ← parse_time_to_seconds (default "" end_time);
    mret [ {[ "start_time" := start_seconds; "end_time" := end_seconds ]} ].

End PyInt.

(** Lines 32-39. *)
Definition my_progress_hook (d : gmap string string) : M unit :=
  status ← getitem d "status";
  if String.eqb status "finished" then
    filename ← getitem d "filename";
    assign_global (Some filename);;
    captured ← read_global;
    logger_info ("Download finished. Final filename captured by hook: "
                 ++ default "None" captured)
  else mret tt.

(** Lines 41-45. *)
Definition get_downloaded_filepath : M (option string) := read_global.

(** The downloader calls the hook once per event, in order; an exception
    raised by one call ends the run. *)
Fixpoint run_hooks (events : list (gmap string string)) : M unit :=
  match events with
  | [] => mret tt
  | d :: rest => my_progress_hook d;; run_hooks rest
  end.

(** ** Vocabulary of the specification *)

(** The event's status equals "finished". *)
Definition is_finished (d : gmap string string) : Prop :=
  d !! "status" = Some "finished".

#[global] Instance is_finished_dec d : Decision (is_finished d).
Proof. unfold is_finished. apply _. Defined.

(** The keys the hook reads are there: 'status' always, 'filename' when the
    status is "finished". *)
Definition well_formed_event (d : gmap string string) : Prop :=
  is_Some (d !! "status") ∧ (is_finished d → is_Some (d !! "filename")).

(** The filename of the last event of the sequence whose status equals
    "finished", written after the specification. *)
Definition last_finished_filename (events : list (gmap string string))
  : option string :=
  d ← last (filter is_finished events); d !! "filename".

(** The two errors the specification names.  Both are a [ValueError] in the
    code; they differ by the place that raises them. *)
Definition MissingParameterError : exn := RaisedValueError missing_parameter_message.

Definition is_FormatError (e : exn) : bool :=
  match e with
  | IntValueError _ | NotEnoughValues _ _ | TooManyValues _ => true
  | RaisedValueError _ | DictKeyError _ => false
  end.

(** The parameter is absent or empty. *)
Definition absent_or_empty (v : option string) : Prop := v = None ∨ v = Some "".

(** The string splits on ':' into exactly three fields that [int] accepts. *)
Definition three_integer_fields (limit : N) (s : string) : Prop :=
  ∃ f1 f2 f3, str_split ":" s = [f1; f2; f3]
    ∧ is_Some (py_int limit f1) ∧ is_Some (py_int limit f2)
    ∧ is_Some (py_int limit f3).

(** No minus sign occurs in the string. *)
Fixpoint unsigned (s : string) : Prop :=
  match s with
  | EmptyString => True
  | String c r => c ≠ "-"%char ∧ unsigned r
  end.

(** ** Sample inputs *)

(** A download that reports progress, finishes a first file, finishes the
    final file and reports once more. *)
Definition sample_events : list (gmap string string) :=
  [ {[ "status" := "downloading"; "filename" := "out.f137.mp4.part" ]};
    {[ "status" := "finished"; "filename" := "out.f137.mp4" ]};
    {[ "status" := "downloading" ]};
    {[ "status" := "finished"; "filename" := "out.mp4" ]};
    {[ "status" := "downloading"; "filename" := "out.mp4" ]} ].

Definition sample_progress_events : list (gmap string string) :=
  [ {[ "status" := "downloading"; "filename" := "out.mp4.part" ]};
    {[ "filename" := "out.mp4.part" ]};
    {[ "status" := "downloading" ]} ].

Definition sample_ydl : YoutubeDL :=
  {| params := {[ "start_time" := "00:00:10"; "end_time" := "00:01:00" ]} |}.

Definition negative_ydl : YoutubeDL :=
  {| params := {[ "start_time" := "-1:00:00"; "end_time" := "00:00:10" ]} |}.

Definition default_limit : N := 4300.

(** ** Vocabulary for the further properties *)

(** The character [c] does not occur in the string. *)
Fixpoint lacks (c : ascii) (s : string) : Prop :=
  match s with
  | EmptyString => True
  | String a r => a ≠ c ∧ lacks c r
  end.

(** Every character of the string passes the test. *)
Fixpoint string_forallb (p : ascii → bool) (s : string) : bool :=
  match s with
  | EmptyString => true
  | String a r => p a && string_forallb p r
  end.

(** The characters a literal accepted by [int] is made of: white space, a
    sign, decimal digits and underscores. *)
Definition int_char (c : ascii) : bool :=
  int_isspace c || bool_decide (is_Some (digit_value c))
  || Ascii.eqb c "_" || Ascii.eqb c "+" || Ascii.eqb c "-".

Definition timecode_char (c : ascii) : bool := Ascii.eqb c ":" || int_char c.

(** [sep.join(fields)] *)
Fixpoint str_join (sep : ascii) (fields : list string) : string :=
  match fields with
  | [] => EmptyString
  | f :: rest =>
      match rest with
      | [] => f
      | _ :: _ => f ++ String sep (str_join sep rest)
      end
  end.

(** Three fields written with colons between them. *)
Definition timecode (h m s : string) : string :=
  h ++ String ":" (m ++ String ":" s).

(** [str(z)]: the decimal numeral of an integer, with a minus sign when it
    is negative. *)
Definition decimal (z : Z) : string := NilZero.string_of_int (Z.to_int z).

(** The record the hook hands to [logger.info] for a finished event. *)
Definition finished_message (filename : string) : string :=
  "Download finished. Final filename captured by hook: " ++ filename.

(** The filenames of the finished events of a sequence, in order. *)
Definition finished_filenames (events : list (gmap string string)) : list string :=
  omap (λ d, d !! "filename") (filter is_finished events).

(** The number a digit string denotes when read from the left, [acc] being
    the value of the digits already read. *)
Fixpoint uint_value (d : Decimal.uint) (acc : Z) : Z :=
  match d with
  | Decimal.Nil => acc
  | Decimal.D0 l => uint_value l (10 * acc + 0)
  | Decimal.D1 l => uint_value l (10 * acc + 1)
  | Decimal.D2 l => uint_value l (10 * acc + 2)
  | Decimal.D3 l => uint_value l (10 * acc + 3)
  | Decimal.D4 l => uint_value l (10 * acc + 4)
  | Decimal.D5 l => uint_value l (10 * acc + 5)
  | Decimal.D6 l => uint_value l (10 * acc + 6)
  | Decimal.D7 l => uint_value l (10 * acc + 7)
  | Decimal.D8 l => uint_value l (10 * acc + 8)
  | Decimal.D9 l => uint_value l (10 * acc + 9)
  end.

(** The digits of a signed numeral. *)
Definition digits_of (i : Decimal.signed_int) : Decimal.uint :=
  match i with
  | Decimal.Pos d | Decimal.Neg d => d
  end.

(** The string starts with a decimal digit. *)
Definition starts_with_digit (str : string) : Prop :=
  match str with
  | String c _ => is_Some (digit_value c)
  | EmptyString => False
  end.

(** The stored path and the log agree: nothing stored and nothing logged, or
    the last record logged names the stored path. *)
Definition log_names_stored_path (st : module_state) : Prop :=
  match _downloaded_file_path_global st with
  | None => logger_info_records st = []
  | Some f => last (logger_info_records st) = Some (finished_message f)
  end.

(** The parameters of [sample_ydl] with the two timecodes exchanged. *)
Definition swapped_ydl : YoutubeDL :=
  {| params := {[ "start_time" := "00:01:00"; "end_time" := "00:00:10" ]} |}.

(** ** The progress hook and the stored path *)

Definition finished_state (filename : string) (st : module_state) : module_state :=
  {| _downloaded_file_path_global := Some filename;
     logger_info_records :=
       logger_info_records st
       ++ ["Download finished. Final filename captured by hook: " ++ filename] |}.

Lemma my_progress_hook_eq d st :
  my_progress_hook d st =
  match d !! "status" with
  | None => (inl (DictKeyError "status"), st)
  | Some status =>
      if String.eqb status "finished" then
        match d !! "filename" with
        | None => (inl (DictKeyError "filename"), st)
        | Some f => (inr tt, finished_state f st)
        end
      else (inr tt, st)
  end.
Proof.
  unfold my_progress_hook, getitem, mbind, M_bind.
  destruct (d !! "status") as [status|]; [|reflexivity].
  cbn. destruct (String.eqb status "finished"); [|reflexivity].
  destruct (d !! "filename"); reflexivity.
Qed.

Lemma is_finished_eqb d status :
  d !! "status" = Some status →
  (String.eqb status "finished" = true ↔ is_finished d).
Proof.
  intros Hs. unfold is_finished. rewrite Hs, String.eqb_eq.
  split; [intros ->; reflexivity | intros [= ->]; reflexivity].
Qed.

Lemma hook_finished d st f :
  is_finished d → d !! "filename" = Some f →
  my_progress_hook d st = (inr tt, finished_state f st).
Proof.
  intros Hfin Hf. rewrite my_progress_hook_eq, Hfin, Hf. reflexivity.
Qed.

Lemma hook_not_finished d st status :
  d !! "status" = Some status → status ≠ "finished" →
  my_progress_hook d st = (inr tt, st).
Proof.
  intros Hs Hne. rewrite my_progress_hook_eq, Hs.
  apply String.eqb_neq in Hne. rewrite Hne. reflexivity.
Qed.

(** Whatever the event and the outcome, the global after the call is the
    event's filename when the call stored one, and the old value otherwise. *)
Lemma hook_global_not_finished d st :
  ¬ is_finished d →
  _downloaded_file_path_global (my_progress_hook d st).2
  = _downloaded_file_path_global st.
Proof.
  intros Hnf. rewrite my_progress_hook_eq.
  destruct (d !! "status") as [status|] eqn:Hs; [|reflexivity].
  destruct (String.eqb status "finished") eqn:He; [|reflexivity].
  exfalso. apply Hnf. eapply is_finished_eqb; eassumption.
Qed.

Lemma run_hooks_cons d rest st :
  run_hooks (d :: rest) st =
  match my_progress_hook d st with
  | (inl e, st') => (inl e, st')
  | (inr _, st') => run_hooks rest st'
  end.
Proof. reflexivity. Qed.

Lemma run_hooks_no_finished events st :
  Forall (λ d, ¬ is_finished d) events →
  _downloaded_file_path_global (run_hooks events st).2
  = _downloaded_file_path_global st.
Proof.
  intros Hall. revert st.
  induction Hall as [|d rest Hd _ IH]; intros st; [reflexivity|].
  rewrite run_hooks_cons.
  pose proof (hook_global_not_finished d st Hd) as Hg.
  destruct (my_progress_hook d st) as [[e|[]] st1]; cbn in Hg |- *.
  - exact Hg.
  - rewrite IH. exact Hg.
Qed.

Lemma last_finished_filename_cons d rest :
  last_finished_filename (d :: rest) =
  match last (filter is_finished rest) with
  | Some d' => d' !! "filename"
  | None => if decide (is_finished d) then d !! "filename" else None
  end.
Proof.
  unfold last_finished_filename. rewrite filter_cons.
  destruct (decide (is_finished d)) as [Hd|Hd].
  - rewrite last_cons. destruct (last (filter is_finished rest)); reflexivity.
  - destruct (last (filter is_finished rest)); reflexivity.
Qed.

Lemma run_hooks_well_formed events st :
  Forall well_formed_event events →
  ∃ st', run_hooks events st = (inr tt, st')
    ∧ _downloaded_file_path_global st'
      = match last (filter is_finished events) with
        | Some d => d !! "filename"
        | None => _downloaded_file_path_global st
        end.
Proof.
  intros Hall. revert st.
  induction Hall as [|d rest [[status Hs] Hfile] _ IH]; intros st.
  - exists st. split; reflexivity.
  - rewrite run_hooks_cons, filter_cons.
    destruct (decide (is_finished d)) as [Hd|Hd].
    + destruct (Hfile Hd) as [f Hf].
      rewrite (hook_finished d st f Hd Hf).
      destruct (IH (finished_state f st)) as (st' & Hrun & Hg).
      exists st'. split; [exact Hrun|].
      rewrite Hg, last_cons.
      destruct (last (filter is_finished rest)); [reflexivity|].
      cbn. symmetry. exact Hf.
    + assert (status ≠ "finished") as Hne.
      { intros ->. apply Hd. exact Hs. }
      rewrite (hook_not_finished d st status Hs Hne).
      apply IH.
Qed.

Lemma filter_none {A} (P : A → Prop) `{!∀ x, Decision (P x)} (l : list A) :
  Forall (λ e, ¬ P e) l → filter P l = [].
Proof.
  induction 1 as [|x l Hx _ IH]; [reflexivity|].
  rewrite filter_cons_False by exact Hx. exact IH.
Qed.

Lemma last_filter_split {A} (P : A → Prop) `{!∀ x, Decision (P x)}
    (pre post : list A) (d : A) :
  P d → Forall (λ e, ¬ P e) post →
  last (filter P (pre ++ d :: post)%list) = Some d.
Proof.
  intros Hd Hpost.
  rewrite filter_app, filter_cons_True by exact Hd.
  rewrite (filter_none P post Hpost). apply last_snoc.
Qed.

Lemma last_filter_none {A} (P : A → Prop) `{!∀ x, Decision (P x)} (l : list A) :
  Forall (λ e, ¬ P e) l → last (filter P l) = None.
Proof. intros Hl. rewrite (filter_none P l Hl). reflexivity. Qed.

(** ** Timecodes *)

Section Timecodes.

Variable limit : N.

Lemma parse_time_to_seconds_eq s st :
  parse_time_to_seconds limit s st =
  (match unpack3 limit (str_split ":" s) with
   | inl e => inl e
   | inr (h, m, sec) => inr (h * 3600 + m * 60 + sec)
   end, st).
Proof.
  unfold parse_time_to_seconds, lift, mbind, M_bind.
  destruct (unpack3 limit (str_split ":" s)) as [e|[[h m] sec]]; reflexivity.
Qed.

Lemma unpack3_three f1 f2 f3 h m sec :
  py_int limit f1 = Some h → py_int limit f2 = Some m →
  py_int limit f3 = Some sec →
  unpack3 limit [f1; f2; f3] = inr (h, m, sec).
Proof. intros H1 H2 H3. unfold unpack3, next_int. rewrite H1, H2, H3. reflexivity. Qed.

Lemma unpack3_inr fields h m sec :
  unpack3 limit fields = inr (h, m, sec) →
  ∃ f1 f2 f3, fields = [f1; f2; f3] ∧ py_int limit f1 = Some h
    ∧ py_int limit f2 = Some m ∧ py_int limit f3 = Some sec.
Proof.
  unfold unpack3, next_int. intros H.
  destruct fields as [|f1 [|f2 [|f3 [|f4 more]]]]; try discriminate;
    repeat match type of H with
           | context [py_int limit ?f] => destruct (py_int limit f) eqn:?
           end; try discriminate.
  injection H as <- <- <-. exists f1, f2, f3. repeat split; assumption.
Qed.

Lemma unpack3_inl fields e :
  unpack3 limit fields = inl e → is_FormatError e = true.
Proof.
  unfold unpack3, next_int. intros H.
  destruct fields as [|f1 [|f2 [|f3 [|f4 more]]]];
    repeat match type of H with
           | context [py_int limit ?f] => destruct (py_int limit f) eqn:?
           end; try discriminate; injection H as <-; reflexivity.
Qed.

Lemma parse_ok_iff s st v st' :
  parse_time_to_seconds limit s st = (inr v, st') ↔
  st' = st ∧ ∃ f1 f2 f3 h m sec, str_split ":" s = [f1; f2; f3]
    ∧ py_int limit f1 = Some h ∧ py_int limit f2 = Some m
    ∧ py_int limit f3 = Some sec ∧ v = h * 3600 + m * 60 + sec.
Proof.
  rewrite parse_time_to_seconds_eq. split.
  - destruct (unpack3 limit (str_split ":" s)) as [e|[[h m] sec]] eqn:Hu;
      intros [= <- <-]. split; [reflexivity|].
    apply unpack3_inr in Hu as (f1 & f2 & f3 & Hs & H1 & H2 & H3).
    exists f1, f2, f3, h, m, sec. repeat split; assumption.
  - intros (-> & f1 & f2 & f3 & h & m & sec & Hs & H1 & H2 & H3 & ->).
    rewrite Hs, (unpack3_three f1 f2 f3 h m sec H1 H2 H3). reflexivity.
Qed.

Lemma parse_err s st e st' :
  parse_time_to_seconds limit s st = (inl e, st') →
  st' = st ∧ is_FormatError e = true.
Proof.
  rewrite parse_time_to_seconds_eq.
  destruct (unpack3 limit (str_split ":" s)) as [e'|[[h m] sec]] eqn:Hu;
    intros [= <- <-]. split; [reflexivity|]. eapply unpack3_inl, Hu.
Qed.

Lemma parse_total s st :
  (∃ v, parse_time_to_seconds limit s st = (inr v, st))
  ∨ (∃ e, parse_time_to_seconds limit s st = (inl e, st)).
Proof.
  rewrite parse_time_to_seconds_eq.
  destruct (unpack3 limit (str_split ":" s)) as [e|[[h m] sec]]; eauto.
Qed.

(** *** Signs *)

Lemma digit_value_nonneg c d : digit_value c = Some d → 0 ≤ d.
Proof.
  unfold digit_value. case_match; [|discriminate]. intros [= <-]. lia.
Qed.

Lemma scan_digits_nonneg p : ∀ prev acc n v d rest,
  0 ≤ acc → scan_digits p prev acc n = Some (v, d, rest) → 0 ≤ v.
Proof.
  induction p as [|c r IH]; intros prev acc n v d rest Hacc; cbn.
  - destruct (Ascii.eqb prev "_"); [discriminate|]. intros [= <- _ _]. exact Hacc.
  - destruct (Ascii.eqb c "_").
    + destruct (Ascii.eqb prev "_"); [discriminate|]. apply IH, Hacc.
    + destruct (digit_value c) as [dv|] eqn:Hd.
      * apply IH. apply digit_value_nonneg in Hd. lia.
      * destruct (Ascii.eqb prev "_"); [discriminate|]. intros [= <- _ _]. exact Hacc.
Qed.

Lemma skip_spaces_unsigned s : unsigned s → unsigned (skip_spaces s).
Proof.
  induction s as [|c r IH]; [trivial|]. intros [Hc Hr]. cbn.
  destruct (int_isspace c); [apply IH, Hr | split; assumption].
Qed.

Lemma split_sign_unsigned str : unsigned str → (split_sign str).1 = 1.
Proof.
  destruct str as [|c r]; [reflexivity|]. intros [Hc _]. cbn.
  destruct (Ascii.eqb c "+"); [reflexivity|].
  destruct (Ascii.eqb c "-") eqn:He; [|reflexivity].
  apply Ascii.eqb_eq in He. contradiction.
Qed.

Lemma py_int_unsigned s v : unsigned s → py_int limit s = Some v → 0 ≤ v.
Proof.
  intros Hu. unfold py_int.
  pose proof (split_sign_unsigned _ (skip_spaces_unsigned s Hu)) as Hsign.
  destruct (split_sign (skip_spaces s)) as [sign str]. cbn in Hsign. subst sign.
  destruct (leading_underscore str); [discriminate|].
  destruct (scan_digits str zero 0 0) as [[[v0 digits] rest]|] eqn:Hscan;
    [|discriminate].
  repeat case_match; try discriminate. intros [= <-].
  apply scan_digits_nonneg in Hscan; lia.
Qed.

Lemma str_split_unsigned s : unsigned s → Forall unsigned (str_split ":" s).
Proof.
  induction s as [|c r IH]; cbn.
  - intros _. repeat constructor.
  - intros [Hc Hr]. specialize (IH Hr).
    destruct (Ascii.eqb c ":").
    + constructor; [exact I | exact IH].
    + destruct (str_split ":" r) as [|f fs].
      * repeat constructor. exact Hc.
      * inversion IH; subst. constructor; [split; assumption | assumption].
Qed.

End Timecodes.

(** The model of the interpreter's [int], [str.split] and unpacking on
    inputs whose outcome under CPython 3.11 is known. *)
Example py_int_examples :
  map (py_int default_limit)
    [" 1 "; "+1"; "-1"; "00012"; "1_0"; "1__0"; "_1"; "1_"; ""; "- 1"; "+-1";
     "0x10"; "1.0"; "1 2"]
  = [Some 1; Some 1; Some (-1); Some 12; Some 10; None; None; None; None; None;
     None; None; None; None].
Proof. reflexivity. Qed.

Example str_split_examples :
  map (str_split ":") [""; "a::b"; ":"; "1:2:3:"]
  = [[""]; ["a"; ""; "b"]; [""; ""]; ["1"; "2"; "3"; ""]].
Proof. reflexivity. Qed.

Example unpacking_examples :
  map (λ s, (parse_time_to_seconds default_limit s initial_state).1)
    ["1:2"; "1:2:3:4"; "1:2:3:x"; "::"; " 1 : 2 :3"]
  = [inl (NotEnoughValues 3 2); inl (TooManyValues 3); inl (IntValueError "x");
     inl (IntValueError ""); inr 3723].
Proof. reflexivity. Qed.

(** ** The download-range callback *)

Lemma py_not_true v : py_not v = true ↔ absent_or_empty v.
Proof.
  unfold absent_or_empty. destruct v as [s|]; cbn.
  - rewrite String.eqb_eq. split; [intros ->; right; reflexivity|].
    intros [H|[= ->]]; [discriminate | reflexivity].
  - split; [left|]; reflexivity.
Qed.

Lemma py_not_false v : py_not v = false ↔ ∃ s, v = Some s ∧ s ≠ "".
Proof.
  destruct v as [s|]; cbn.
  - rewrite String.eqb_neq. split; [eauto|]. intros (s' & [= ->] & H). exact H.
  - split; [discriminate|]. intros (s' & [=] & _).
Qed.

Lemma callback_missing limit info ydl st :
  absent_or_empty (params ydl !! "start_time")
  ∨ absent_or_empty (params ydl !! "end_time") →
  download_ranges_callback limit info ydl st = (inl MissingParameterError, st).
Proof.
  intros H. unfold download_ranges_callback.
  replace (py_not (params ydl !! "start_time") || py_not (params ydl !! "end_time"))
    with true; [reflexivity|].
  symmetry. apply orb_true_iff.
  destruct H as [H|H]; [left | right]; apply py_not_true, H.
Qed.

Lemma callback_present limit info ydl st start_time end_time :
  params ydl !! "start_time" = Some start_time → start_time ≠ "" →
  params ydl !! "end_time" = Some end_time → end_time ≠ "" →
  download_ranges_callback limit info ydl st =
  match parse_time_to_seconds limit start_time st with
  | (inl e, st1) => (inl e, st1)
  | (inr a, st1) =>
      match parse_time_to_seconds limit end_time st1 with
      | (inl e, st2) => (inl e, st2)
      | (inr b, st2) => (inr [ {[ "start_time" := a; "end_time" := b ]} ], st2)
      end
  end.
Proof.
  intros Hs Hsne He Hene. unfold download_ranges_callback.
  rewrite Hs, He. cbn.
  apply String.eqb_neq in Hsne, Hene. rewrite Hsne, Hene. cbn.
  unfold mbind, M_bind.
  destruct (parse_time_to_seconds limit start_time st) as [[e|a] st1]; [reflexivity|].
  destruct (parse_time_to_seconds limit end_time st1) as [[e|b] st2]; reflexivity.
Qed.

(** Either the guard raises, or the outcome is decided by the two parses. *)
Lemma callback_cases ydl :
  (absent_or_empty (params ydl !! "start_time")
   ∨ absent_or_empty (params ydl !! "end_time"))
  ∨ (∃ start_time end_time,
       params ydl !! "start_time" = Some start_time ∧ start_time ≠ ""
       ∧ params ydl !! "end_time" = Some end_time ∧ end_time ≠ "").
Proof.
  destruct (py_not (params ydl !! "start_time")) eqn:H1.
  { left. left. apply py_not_true, H1. }
  destruct (py_not (params ydl !! "end_time")) eqn:H2.
  { left. right. apply py_not_true, H2. }
  right. apply py_not_false in H1 as (s & Hs & Hsne), H2 as (e & He & Hene).
  exists s, e. repeat split; assumption.
Qed.

Lemma callback_state limit info ydl st :
  (download_ranges_callback limit info ydl st).2 = st.
Proof.
  destruct (callback_cases ydl)
    as [Hm|(s & e & Hs & Hsne & He & Hene)].
  - rewrite (callback_missing limit info ydl st Hm). reflexivity.
  - rewrite (callback_present limit info ydl st s e Hs Hsne He Hene).
    rewrite !parse_time_to_seconds_eq.
    destruct (unpack3 limit (str_split ":" s)) as [?|[[??]?]]; [reflexivity|].
    destruct (unpack3 limit (str_split ":" e)) as [?|[[??]?]]; reflexivity.
Qed.

Lemma callback_error limit info ydl st e st' :
  download_ranges_callback limit info ydl st = (inl e, st') →
  (e = MissingParameterError
   ∧ (absent_or_empty (params ydl !! "start_time")
      ∨ absent_or_empty (params ydl !! "end_time")))
  ∨ (is_FormatError e = true
     ∧ ∃ start_time end_time,
         params ydl !! "start_time" = Some start_time ∧ start_time ≠ ""
         ∧ params ydl !! "end_time" = Some end_time ∧ end_time ≠ "").
Proof.
  destruct (callback_cases ydl)
    as [Hm|(s & t & Hs & Hsne & He & Hene)].
  - rewrite (callback_missing limit info ydl st Hm). intros [= <- _].
    left. split; [reflexivity | exact Hm].
  - rewrite (callback_present limit info ydl st s t Hs Hsne He Hene).
    intros H. right. split; [|exists s, t; repeat split; assumption].
    destruct (parse_time_to_seconds limit s st) as [[e1|a] st1] eqn:H1.
    + injection H as <- _. eapply parse_err, H1.
    + destruct (parse_time_to_seconds limit t st1) as [[e2|b] st2] eqn:H2;
        [|discriminate].
      injection H as <- _. eapply parse_err, H2.
Qed.

(** * The claims *)

(** C1. After any finite sequence of progress events, each carrying the keys
    the hook reads, applied to the initially empty state, the stored path
    read by [get_downloaded_filepath] is the filename of the last event of
    the sequence whose status equals "finished" (a later finished event
    overwrites an earlier one), and it is [None] when no event of the
    sequence is finished. *)
Theorem progress_hooks_last_finished (events : list (gmap string string)) :
  Forall well_formed_event events →
  (∃ st', (run_hooks events;; get_downloaded_filepath) initial_state
          = (inr (last_finished_filename events), st'))
  ∧ (∀ pre d post, events = (pre ++ d :: post)%list → is_finished d →
       Forall (λ e, ¬ is_finished e) post →
       last_finished_filename events = d !! "filename"
       ∧ is_Some (d !! "filename"))
  ∧ (Forall (λ e, ¬ is_finished e) events →
       last_finished_filename events = None).
Proof.
  intros Hwf. split; [|split].
  - destruct (run_hooks_well_formed events initial_state Hwf) as (st' & Hrun & Hg).
    exists st'. unfold mbind, M_bind. rewrite Hrun.
    unfold get_downloaded_filepath, read_global. rewrite Hg.
    unfold last_finished_filename.
    destruct (last (filter is_finished events)); reflexivity.
  - intros pre d post -> Hd Hpost.
    unfold last_finished_filename.
    rewrite (last_filter_split is_finished pre post d Hd Hpost). cbn.
    split; [reflexivity|].
    apply Forall_app in Hwf as [_ Hwf]. apply Forall_cons in Hwf as [[_ Hf] _].
    exact (Hf Hd).
  - intros Hnone. unfold last_finished_filename.
    rewrite (last_filter_none is_finished events Hnone). reflexivity.
Qed.

Lemma sample_events_well_formed : Forall well_formed_event sample_events.
Proof.
  unfold sample_events.
  repeat apply Forall_cons_2; try apply Forall_nil_2;
    (split; [eexists; reflexivity|]);
    intros H; first [ eexists; reflexivity | vm_compute in H; discriminate H ].
Defined.

Lemma progress_hooks_last_finished_witness :
  Forall well_formed_event sample_events
  ∧ ∃ st', (run_hooks sample_events;; get_downloaded_filepath) initial_state
           = (inr (Some "out.mp4"), st').
Proof.
  split; [exact sample_events_well_formed|].
  exact (proj1 (progress_hooks_last_finished sample_events sample_events_well_formed)).
Defined.

(** C6. The stored path starts empty; [get_downloaded_filepath] returns the
    current value, never raises and changes nothing; before any event with
    status "finished" it returns [None], whatever the earlier calls of the
    hook did. *)
Theorem downloaded_path_initially_none :
  _downloaded_file_path_global initial_state = None
  ∧ (∀ st, get_downloaded_filepath st = (inr (_downloaded_file_path_global st), st))
  ∧ get_downloaded_filepath initial_state = (inr None, initial_state)
  ∧ (∀ events, Forall (λ d, ¬ is_finished d) events →
       (get_downloaded_filepath (run_hooks events initial_state).2).1 = inr None).
Proof.
  repeat split.
  intros events Hnone. unfold get_downloaded_filepath, read_global. cbn.
  rewrite (run_hooks_no_finished events initial_state Hnone). reflexivity.
Qed.

Lemma sample_progress_events_not_finished :
  Forall (λ d, ¬ is_finished d) sample_progress_events.
Proof.
  unfold sample_progress_events.
  repeat apply Forall_cons_2; try apply Forall_nil_2;
    intros H; vm_compute in H; discriminate H.
Defined.

Lemma downloaded_path_initially_none_witness :
  Forall (λ d, ¬ is_finished d) sample_progress_events
  ∧ (get_downloaded_filepath (run_hooks sample_progress_events initial_state).2).1
    = inr None.
Proof.
  split; [exact sample_progress_events_not_finished|].
  exact (proj2 (proj2 (proj2 downloaded_path_initially_none))
           sample_progress_events sample_progress_events_not_finished).
Defined.

(** C7. For an event whose status is present and differs from "finished",
    the hook returns normally and leaves the whole module state, the stored
    path included, exactly as it was. *)
Theorem progress_hook_other_status (d : gmap string string) (st : module_state)
    (status : string) :
  d !! "status" = Some status → status ≠ "finished" →
  my_progress_hook d st = (inr tt, st)
  ∧ _downloaded_file_path_global (my_progress_hook d st).2
    = _downloaded_file_path_global st.
Proof.
  intros Hs Hne. rewrite (hook_not_finished d st status Hs Hne).
  split; reflexivity.
Qed.

Lemma progress_hook_other_status_witness :
  my_progress_hook {[ "status" := "downloading"; "filename" := "out.mp4.part" ]}
    (finished_state "first.mp4" initial_state)
  = (inr tt, finished_state "first.mp4" initial_state).
Proof.
  refine (proj1 (progress_hook_other_status _ _ "downloading" _ _)).
  - reflexivity.
  - discriminate.
Defined.

(** C9. The hook raises a [KeyError] for every event without the key
    'status', and for every event whose status equals "finished" and that
    has no key 'filename', leaving the state as it was; for an event that
    has 'status', and 'filename' when the status is "finished", it returns
    normally; and those two lookups are its only errors. *)
Theorem progress_hook_lookup_errors (d : gmap string string) (st : module_state) :
  (d !! "status" = None →
     my_progress_hook d st = (inl (DictKeyError "status"), st))
  ∧ (is_finished d → d !! "filename" = None →
     my_progress_hook d st = (inl (DictKeyError "filename"), st))
  ∧ (well_formed_event d → ∃ st', my_progress_hook d st = (inr tt, st'))
  ∧ (∀ e st', my_progress_hook d st = (inl e, st') →
       class_of e = KeyError ∧ ¬ well_formed_event d).
Proof.
  rewrite my_progress_hook_eq. split; [|split; [|split]].
  - intros ->. reflexivity.
  - intros -> ->. reflexivity.
  - intros [[status Hs] Hfile]. rewrite Hs.
    destruct (String.eqb status "finished") eqn:He; [|eauto].
    apply (is_finished_eqb d status Hs) in He.
    destruct (Hfile He) as [f ->]. eauto.
  - intros e st' He. split.
    + destruct (d !! "status") as [status|]; [|injection He as <- _; reflexivity].
      destruct (String.eqb status "finished"); [|discriminate].
      destruct (d !! "filename"); [discriminate|].
      injection He as <- _. reflexivity.
    + intros [[status Hs] Hfile]. rewrite Hs in He.
      destruct (String.eqb status "finished") eqn:Heq; [|discriminate].
      apply (is_finished_eqb d status Hs) in Heq.
      destruct (Hfile Heq) as [f Hf]. rewrite Hf in He. discriminate.
Qed.

Lemma progress_hook_lookup_errors_witness :
  my_progress_hook {[ "filename" := "out.mp4" ]} initial_state
    = (inl (DictKeyError "status"), initial_state)
  ∧ my_progress_hook {[ "status" := "finished" ]} initial_state
    = (inl (DictKeyError "filename"), initial_state)
  ∧ ∃ st', my_progress_hook {[ "status" := "finished"; "filename" := "out.mp4" ]}
             initial_state = (inr tt, st').
Proof.
  split; [|split].
  - apply (proj1 (progress_hook_lookup_errors _ _)). reflexivity.
  - apply (proj1 (proj2 (progress_hook_lookup_errors _ _))); reflexivity.
  - apply (proj1 (proj2 (proj2 (progress_hook_lookup_errors _ _)))).
    split; [eexists; reflexivity | intros _; eexists; reflexivity].
Defined.

(** C3. A string that splits on ':' into exactly three fields that [int]
    reads as [h], [m] and [s] is converted to [h*3600 + m*60 + s]; the state
    is untouched.  "01:02:03" gives 3723 and "00:00:00" gives 0. *)
Theorem parse_time_to_seconds_value (limit : N) :
  (∀ time_str st f1 f2 f3 h m s,
     str_split ":" time_str = [f1; f2; f3] →
     py_int limit f1 = Some h → py_int limit f2 = Some m →
     py_int limit f3 = Some s →
     parse_time_to_seconds limit time_str st = (inr (h * 3600 + m * 60 + s), st))
  ∧ (∀ st, parse_time_to_seconds limit "01:02:03" st = (inr 3723, st))
  ∧ (∀ st, parse_time_to_seconds limit "00:00:00" st = (inr 0, st)).
Proof.
  split; [|split; intros st; reflexivity].
  intros time_str st f1 f2 f3 h m s Hsplit H1 H2 H3.
  apply parse_ok_iff. split; [reflexivity|].
  exists f1, f2, f3, h, m, s. repeat split; assumption.
Qed.

Lemma parse_time_to_seconds_value_witness :
  parse_time_to_seconds default_limit " 10:+07:0_9 " initial_state
  = (inr 36429, initial_state).
Proof.
  exact (proj1 (parse_time_to_seconds_value default_limit)
           " 10:+07:0_9 " initial_state " 10" "+07" "0_9 " 10 7 9
           eq_refl eq_refl eq_refl eq_refl).
Defined.

(** C2. When 'start_time' and 'end_time' are both present and non-empty and
    both parse, the callback returns a list with exactly one range, whose
    start is the parsed 'start_time' and whose end is the parsed 'end_time';
    for "00:00:10" and "00:01:00" the range is 10 to 60. *)
Theorem download_ranges_single (limit : N) :
  (∀ info_dict ydl st start_time end_time start_seconds end_seconds,
     params ydl !! "start_time" = Some start_time → start_time ≠ "" →
     params ydl !! "end_time" = Some end_time → end_time ≠ "" →
     parse_time_to_seconds limit start_time st = (inr start_seconds, st) →
     parse_time_to_seconds limit end_time st = (inr end_seconds, st) →
     download_ranges_callback limit info_dict ydl st
     = (inr [ {[ "start_time" := start_seconds; "end_time" := end_seconds ]} ], st))
  ∧ (∀ info_dict st,
       download_ranges_callback limit info_dict sample_ydl st
       = (inr [ {[ "start_time" := 10; "end_time" := 60 ]} ], st)).
Proof.
  assert (∀ info_dict ydl st start_time end_time start_seconds end_seconds,
     params ydl !! "start_time" = Some start_time → start_time ≠ "" →
     params ydl !! "end_time" = Some end_time → end_time ≠ "" →
     parse_time_to_seconds limit start_time st = (inr start_seconds, st) →
     parse_time_to_seconds limit end_time st = (inr end_seconds, st) →
     download_ranges_callback limit info_dict ydl st
     = (inr [ {[ "start_time" := start_seconds; "end_time" := end_seconds ]} ], st))
    as Hgen.
  { intros info ydl st s e a b Hs Hsne He Hene Ha Hb.
    rewrite (callback_present limit info ydl st s e Hs Hsne He Hene), Ha, Hb.
    reflexivity. }
  split; [exact Hgen|].
  intros info st.
  apply (Hgen info sample_ydl st "00:00:10" "00:01:00");
    solve [reflexivity | discriminate].
Qed.

Lemma download_ranges_single_witness :
  download_ranges_callback default_limit ∅ sample_ydl initial_state
  = (inr [ {[ "start_time" := 10; "end_time" := 60 ]} ], initial_state).
Proof.
  refine (proj1 (download_ranges_single default_limit)
            ∅ sample_ydl initial_state "00:00:10" "00:01:00" 10 60 _ _ _ _ _ _);
    solve [reflexivity | discriminate].
Defined.

(** C4. The callback fails with the missing-parameter error exactly when
    'start_time' or 'end_time' is absent or empty.  The guard comes first:
    in that case the error is the outcome whatever the other parameter
    holds, parseable or not, and it reaches the caller as it is, with the
    state unchanged.  With no parameter at all the callback fails so. *)
Theorem missing_parameter_iff (limit : N) (info_dict : gmap string string)
    (ydl : YoutubeDL) (st : module_state) :
  (download_ranges_callback limit info_dict ydl st = (inl MissingParameterError, st)
   ↔ absent_or_empty (params ydl !! "start_time")
     ∨ absent_or_empty (params ydl !! "end_time"))
  ∧ ((∃ st', download_ranges_callback limit info_dict ydl st
             = (inl MissingParameterError, st'))
     ↔ absent_or_empty (params ydl !! "start_time")
       ∨ absent_or_empty (params ydl !! "end_time"))
  ∧ download_ranges_callback limit info_dict {| params := ∅ |} st
    = (inl MissingParameterError, st)
  ∧ class_of MissingParameterError = ValueError.
Proof.
  assert (∀ st', download_ranges_callback limit info_dict ydl st
                 = (inl MissingParameterError, st') →
          absent_or_empty (params ydl !! "start_time")
          ∨ absent_or_empty (params ydl !! "end_time")) as Honly.
  { intros st' H. apply callback_error in H as [[_ Hm]|[Hf _]];
      [exact Hm | discriminate Hf]. }
  split; [|split; [|split]].
  - split; [apply Honly | apply callback_missing].
  - split; [intros [st' H]; exact (Honly st' H)|].
    intros Hm. exists st. apply callback_missing, Hm.
  - apply callback_missing. left. left. reflexivity.
  - reflexivity.
Qed.

Lemma missing_parameter_iff_witness :
  download_ranges_callback default_limit ∅
    {| params := {[ "start_time" := ""; "end_time" := "not a timecode" ]} |}
    initial_state
  = (inl MissingParameterError, initial_state).
Proof.
  apply (proj2 (proj1 (missing_parameter_iff default_limit ∅ _ initial_state))).
  left. right. reflexivity.
Defined.

(** C5. [parse_time_to_seconds] fails, with a format error, exactly when the
    string does not split on ':' into exactly three fields that [int]
    accepts; a format error is a [ValueError] distinct from the
    missing-parameter error; the callback hands the format error of either
    timecode on to its caller unchanged; "bad:input" fails with a format
    error. *)
Theorem format_error_iff (limit : N) :
  (∀ time_str st,
     (∃ e, parse_time_to_seconds limit time_str st = (inl e, st)
           ∧ is_FormatError e = true)
     ↔ ¬ three_integer_fields limit time_str)
  ∧ (∀ e, is_FormatError e = true →
       class_of e = ValueError ∧ e ≠ MissingParameterError)
  ∧ (∀ info_dict ydl st start_time end_time e,
       params ydl !! "start_time" = Some start_time → start_time ≠ "" →
       params ydl !! "end_time" = Some end_time → end_time ≠ "" →
       (parse_time_to_seconds limit start_time st = (inl e, st) →
        download_ranges_callback limit info_dict ydl st = (inl e, st))
       ∧ (∀ start_seconds,
            parse_time_to_seconds limit start_time st = (inr start_seconds, st) →
            parse_time_to_seconds limit end_time st = (inl e, st) →
            download_ranges_callback limit info_dict ydl st = (inl e, st)))
  ∧ (∀ st, parse_time_to_seconds limit "bad:input" st
           = (inl (IntValueError "bad"), st)).
Proof.
  split; [|split; [|split]].
  - intros time_str st. split.
    + intros (e & He & _) (f1 & f2 & f3 & Hs & [h H1] & [m H2] & [s H3]).
      assert (parse_time_to_seconds limit time_str st
              = (inr (h * 3600 + m * 60 + s), st)) as Hok.
      { apply parse_ok_iff. split; [reflexivity|].
        exists f1, f2, f3, h, m, s. repeat split; assumption. }
      rewrite Hok in He. discriminate.
    + intros Hnot.
      destruct (parse_total limit time_str st) as [[v Hv]|[e He]].
      * exfalso. apply Hnot.
        apply parse_ok_iff in Hv as (_ & f1 & f2 & f3 & h & m & s & Hs & H1 & H2 & H3 & _).
        exists f1, f2, f3. rewrite H1, H2, H3. repeat split; eauto.
      * exists e. split; [exact He|]. eapply parse_err, He.
  - intros e He. destruct e; try discriminate; split; try reflexivity; discriminate.
  - intros info ydl st s t e Hs Hsne Ht Htne.
    rewrite (callback_present limit info ydl st s t Hs Hsne Ht Htne).
    split.
    + intros ->. reflexivity.
    + intros a -> ->. reflexivity.
  - intros st. reflexivity.
Qed.

Lemma format_error_iff_witness :
  (∃ e, parse_time_to_seconds default_limit "1:2:3:4" initial_state
        = (inl e, initial_state) ∧ is_FormatError e = true)
  ∧ download_ranges_callback default_limit ∅
      {| params := {[ "start_time" := "00:00:10"; "end_time" := "1:00" ]} |}
      initial_state
    = (inl (NotEnoughValues 3 2), initial_state).
Proof.
  split.
  - apply (proj1 (format_error_iff default_limit)).
    intros (f1 & f2 & f3 & Hs & _). discriminate Hs.
  - refine (proj2 (proj1 (proj2 (proj2 (format_error_iff default_limit)))
                     ∅ _ initial_state "00:00:10" "1:00" _ _ _ _ _) 10 _ _);
      solve [reflexivity | discriminate].
Defined.

(** C10. Neither [parse_time_to_seconds] nor [download_ranges_callback]
    touches the module state: whether the call returns or raises, the state
    after it, and so the path [get_downloaded_filepath] reads, is the one
    before it. *)
Theorem parsing_preserves_state (limit : N) :
  (∀ time_str st,
     (parse_time_to_seconds limit time_str st).2 = st
     ∧ get_downloaded_filepath (parse_time_to_seconds limit time_str st).2
       = get_downloaded_filepath st)
  ∧ (∀ info_dict ydl st,
       (download_ranges_callback limit info_dict ydl st).2 = st
       ∧ get_downloaded_filepath (download_ranges_callback limit info_dict ydl st).2
         = get_downloaded_filepath st).
Proof.
  split.
  - intros time_str st. rewrite parse_time_to_seconds_eq. split; reflexivity.
  - intros info ydl st. rewrite callback_state. split; reflexivity.
Qed.

(** C8, as stated, fails: [int] reads a sign, so a timecode with a negative
    field is accepted and gives a negative number of seconds, which the
    callback puts in the range as it is. *)
Lemma negative_timecode_accepted :
  py_int default_limit "-1" = Some (-1)
  ∧ parse_time_to_seconds default_limit "-1:00:00" initial_state
    = (inr (-3600), initial_state)
  ∧ download_ranges_callback default_limit ∅ negative_ydl initial_state
    = (inr [ {[ "start_time" := -3600; "end_time" := 10 ]} ], initial_state).
Proof. repeat split. Qed.

(** C8, amended.  Every timecode accepted by [parse_time_to_seconds] has
    exactly three colon-separated fields, each read by [int] (which allows a
    sign), and the result is [h*3600 + m*60 + s]; when the timecode holds no
    minus sign the three fields and the result are non-negative.  So every
    range returned by the callback has the two parsed values as its bounds,
    and a bound whose timecode holds no minus sign is non-negative. *)
Theorem accepted_timecode_fields (limit : N) :
  (∀ time_str st v st',
     parse_time_to_seconds limit time_str st = (inr v, st') →
     ∃ f1 f2 f3 h m s,
       str_split ":" time_str = [f1; f2; f3]
       ∧ py_int limit f1 = Some h ∧ py_int limit f2 = Some m
       ∧ py_int limit f3 = Some s
       ∧ v = h * 3600 + m * 60 + s
       ∧ (unsigned time_str → 0 ≤ h ∧ 0 ≤ m ∧ 0 ≤ s ∧ 0 ≤ v))
  ∧ (∀ info_dict ydl st ranges st',
       download_ranges_callback limit info_dict ydl st = (inr ranges, st') →
       ∃ start_time end_time start_seconds end_seconds,
         params ydl !! "start_time" = Some start_time
         ∧ params ydl !! "end_time" = Some end_time
         ∧ parse_time_to_seconds limit start_time st = (inr start_seconds, st)
         ∧ parse_time_to_seconds limit end_time st = (inr end_seconds, st)
         ∧ ranges = [ {[ "start_time" := start_seconds; "end_time" := end_seconds ]} ]
         ∧ (unsigned start_time → 0 ≤ start_seconds)
         ∧ (unsigned end_time → 0 ≤ end_seconds)).
Proof.
  assert (∀ time_str st v st',
     parse_time_to_seconds limit time_str st = (inr v, st') →
     ∃ f1 f2 f3 h m s,
       str_split ":" time_str = [f1; f2; f3]
       ∧ py_int limit f1 = Some h ∧ py_int limit f2 = Some m
       ∧ py_int limit f3 = Some s
       ∧ v = h * 3600 + m * 60 + s
       ∧ (unsigned time_str → 0 ≤ h ∧ 0 ≤ m ∧ 0 ≤ s ∧ 0 ≤ v)) as Hparse.
  { intros time_str st v st' H.
    apply parse_ok_iff in H
      as (_ & f1 & f2 & f3 & h & m & s & Hs & H1 & H2 & H3 & ->).
    exists f1, f2, f3, h, m, s. repeat (split; [assumption || reflexivity|]).
    intros Hu. apply (str_split_unsigned time_str) in Hu. rewrite Hs in Hu.
    apply Forall_cons in Hu as [U1 Hu]. apply Forall_cons in Hu as [U2 Hu].
    apply Forall_cons in Hu as [U3 _].
    pose proof (py_int_unsigned limit f1 h U1 H1).
    pose proof (py_int_unsigned limit f2 m U2 H2).
    pose proof (py_int_unsigned limit f3 s U3 H3).
    lia. }
  split; [exact Hparse|].
  intros info ydl st ranges st' H.
  destruct (callback_cases ydl) as [Hm|(s & t & Hs & Hsne & Ht & Htne)].
  { rewrite (callback_missing limit info ydl st Hm) in H. discriminate. }
  rewrite (callback_present limit info ydl st s t Hs Hsne Ht Htne) in H.
  destruct (parse_time_to_seconds limit s st) as [[e1|a] st1] eqn:Ha;
    [discriminate|].
  pose proof (proj1 (proj1 (parse_ok_iff limit s st a st1) Ha)) as ->.
  destruct (parse_time_to_seconds limit t st) as [[e2|b] st2] eqn:Hb;
    [discriminate|].
  pose proof (proj1 (proj1 (parse_ok_iff limit t st b st2) Hb)) as ->.
  injection H as <- <-.
  exists s, t, a, b. repeat (split; [assumption || reflexivity|]).
  split; intros Hu.
  - destruct (Hparse s st a st Ha) as (?&?&?&?&?&?&_&_&_&_&_&Hn). apply Hn, Hu.
  - destruct (Hparse t st b st Hb) as (?&?&?&?&?&?&_&_&_&_&_&Hn). apply Hn, Hu.
Qed.

Lemma unsigned_sample : unsigned "01:02:03".
Proof. cbn. repeat split; discriminate. Defined.

Lemma accepted_timecode_fields_witness :
  parse_time_to_seconds default_limit "01:02:03" initial_state
  = (inr 3723, initial_state)
  ∧ unsigned "01:02:03"
  ∧ ∃ h m s, 3723 = h * 3600 + m * 60 + s ∧ 0 ≤ h ∧ 0 ≤ m ∧ 0 ≤ s.
Proof.
  split; [reflexivity|]. split; [exact unsigned_sample|].
  destruct (proj1 (accepted_timecode_fields default_limit)
              "01:02:03" initial_state 3723 initial_state eq_refl)
    as (f1 & f2 & f3 & h & m & s & _ & _ & _ & _ & Hv & Hn).
  destruct (Hn unsigned_sample) as (Hh & Hm & Hs & _).
  exists h, m, s. repeat split; assumption.
Defined.

(** * Lemmas for the further properties *)

(** ** Splitting on the separator *)

Lemma str_split_lacks sep f : lacks sep f → str_split sep f = [f].
Proof.
  induction f as [|a r IH]; [reflexivity|]. intros [Ha Hr]. cbn.
  apply Ascii.eqb_neq in Ha. rewrite Ha, (IH Hr). reflexivity.
Qed.

Lemma str_split_app sep f rest :
  lacks sep f →
  str_split sep (f ++ String sep rest) = f :: str_split sep rest.
Proof.
  induction f as [|a r IH]; intros Hf.
  - change (str_split sep (String sep rest) = "" :: str_split sep rest).
    cbn. rewrite Ascii.eqb_refl. reflexivity.
  - change (str_split sep (String a (r ++ String sep rest))
            = String a r :: str_split sep rest).
    destruct Hf as [Ha Hr]. apply Ascii.eqb_neq in Ha.
    cbn. rewrite Ha, (IH Hr). reflexivity.
Qed.

Lemma str_split_timecode f1 f2 f3 :
  lacks ":" f1 → lacks ":" f2 → lacks ":" f3 →
  str_split ":" (timecode f1 f2 f3) = [f1; f2; f3].
Proof.
  intros H1 H2 H3. unfold timecode.
  rewrite (str_split_app ":" f1 _ H1), (str_split_app ":" f2 _ H2).
  rewrite (str_split_lacks ":" f3 H3). reflexivity.
Qed.

Lemma str_split_nonempty sep s : str_split sep s ≠ [].
Proof.
  destruct s as [|a r]; cbn; [discriminate|].
  destruct (Ascii.eqb a sep); [discriminate|].
  destruct (str_split sep r); discriminate.
Qed.

Lemma str_join_cons_char sep a f fs :
  str_join sep (String a f :: fs) = String a (str_join sep (f :: fs)).
Proof. destruct fs; reflexivity. Qed.

(** The fields hold no separator, and joined with the separator they give
    the string back. *)
Lemma str_split_lacks_all sep s : Forall (lacks sep) (str_split sep s).
Proof.
  induction s as [|a r IH]; cbn.
  - repeat constructor.
  - destruct (Ascii.eqb a sep) eqn:Ha.
    + constructor; [exact I | exact IH].
    + apply Ascii.eqb_neq in Ha.
      destruct (str_split sep r) as [|f fs].
      * repeat constructor. exact Ha.
      * apply Forall_cons in IH as [Hf Hfs].
        constructor; [split; assumption | assumption].
Qed.

Lemma str_join_split sep s : str_join sep (str_split sep s) = s.
Proof.
  induction s as [|a r IH]; [reflexivity|]. cbn [str_split].
  pose proof (str_split_nonempty sep r) as Hne.
  destruct (Ascii.eqb a sep) eqn:Ha.
  - apply Ascii.eqb_eq in Ha as ->.
    destruct (str_split sep r) as [|f fs]; [contradiction|].
    change (String sep (str_join sep (f :: fs)) = String sep r).
    rewrite IH. reflexivity.
  - destruct (str_split sep r) as [|f fs]; [contradiction|].
    rewrite str_join_cons_char, IH. reflexivity.
Qed.

Lemma str_split_three s f1 f2 f3 :
  str_split ":" s = [f1; f2; f3] →
  s = timecode f1 f2 f3 ∧ lacks ":" f1 ∧ lacks ":" f2 ∧ lacks ":" f3.
Proof.
  intros Hs. pose proof (str_split_lacks_all ":" s) as Hl.
  pose proof (str_join_split ":" s) as Hj. rewrite Hs in Hl, Hj.
  apply Forall_cons in Hl as [H1 Hl]. apply Forall_cons in Hl as [H2 Hl].
  apply Forall_cons in Hl as [H3 _].
  split; [|repeat split; assumption].
  rewrite <- Hj. reflexivity.
Qed.

(** ** Decimal numerals *)

Lemma uint_value_of_uint_acc d : ∀ p,
  Z.pos (Pos.of_uint_acc d p) = uint_value d (Z.pos p).
Proof.
  induction d; intros p; cbn [Pos.of_uint_acc uint_value];
    try reflexivity; rewrite IHd; f_equal; lia.
Qed.

Lemma uint_value_of_uint d : Z.of_N (Pos.of_uint d) = uint_value d 0.
Proof.
  induction d; cbn [Pos.of_uint uint_value]; try reflexivity;
    try exact IHd; cbn [Z.of_N]; rewrite uint_value_of_uint_acc; reflexivity.
Qed.

Lemma digit_not_special c :
  is_Some (digit_value c) →
  int_isspace c = false ∧ Ascii.eqb c "+" = false ∧ Ascii.eqb c "-" = false
  ∧ Ascii.eqb c "_" = false.
Proof.
  destruct c as [[] [] [] [] [] [] [] []]; intros [v Hv];
    first [ discriminate Hv | repeat split ].
Qed.

Lemma scan_digits_digit c r prev acc n d :
  digit_value c = Some d →
  scan_digits (String c r) prev acc n = scan_digits r c (10 * acc + d) (n + 1).
Proof.
  intros Hd. cbn [scan_digits].
  destruct (digit_not_special c) as (_ & _ & _ & Hu); [eexists; exact Hd|].
  rewrite Hu, Hd. reflexivity.
Qed.

Lemma scan_digits_uint d : ∀ prev acc n,
  prev ≠ "_"%char →
  scan_digits (NilEmpty.string_of_uint d) prev acc n
  = Some (uint_value d acc,
          (n + N.of_nat (String.length (NilEmpty.string_of_uint d)))%N, "").
Proof.
  induction d; intros prev acc n Hprev;
    cbn [NilEmpty.string_of_uint uint_value String.length].
  { cbn [scan_digits]. apply Ascii.eqb_neq in Hprev. rewrite Hprev.
    rewrite N.add_0_r. reflexivity. }
  all: erewrite scan_digits_digit by (vm_compute; reflexivity);
    rewrite IHd by discriminate; do 3 f_equal; lia.
Qed.

Section DecimalLiterals.

Variable limit : N.

(** A digit string within the digit limit is read as it stands, and with a
    sign in front accordingly. *)
Lemma py_int_digits str v n :
  starts_with_digit str →
  scan_digits str zero 0 0 = Some (v, n, "") →
  (n ≠ 0)%N → (n ≤ _PY_LONG_MAX_STR_DIGITS_THRESHOLD)%N →
  py_int limit str = Some v
  ∧ py_int limit (String "-" str) = Some (- v)
  ∧ py_int limit (String "+" str) = Some v.
Proof.
  intros Hd Hscan Hn0 Hn.
  destruct str as [|c r]; [contradiction|].
  destruct (digit_not_special c Hd) as (Hsp & Hplus & Hminus & Hund).
  assert (∀ sign, (if leading_underscore (String c r) then None
          else match scan_digits (String c r) zero 0 0 with
               | None => None
               | Some (v0, digits, rest) =>
                   if (digits =? 0)%N then None
                   else match skip_spaces rest with
                        | String _ _ => None
                        | EmptyString =>
                            if ((_PY_LONG_MAX_STR_DIGITS_THRESHOLD <? digits)
                                && (0 <? limit) && (limit <? digits))%N
                            then None else Some (sign * v0)
                        end
               end) = Some (sign * v)) as Hbody.
  { intros sign. cbn [leading_underscore]. rewrite Hund, Hscan.
    apply N.eqb_neq in Hn0. rewrite Hn0. cbn [skip_spaces].
    apply N.ltb_ge in Hn. rewrite Hn. reflexivity. }
  repeat split.
  - unfold py_int. cbn [skip_spaces]. rewrite Hsp. cbn [split_sign].
    rewrite Hplus, Hminus, Hbody. f_equal; lia.
  - unfold py_int. cbn [skip_spaces]. 
    change (int_isspace "-") with false. cbn [split_sign].
    change (Ascii.eqb "-" "+") with false. change (Ascii.eqb "-" "-") with true.
    cbv iota. rewrite Hbody. f_equal; lia.
  - unfold py_int. cbn [skip_spaces].
    change (int_isspace "+") with false. cbn [split_sign].
    change (Ascii.eqb "+" "+") with true.
    cbv iota. rewrite Hbody. f_equal; lia.
Qed.

Lemma string_of_uint_starts_with_digit d :
  d ≠ Decimal.Nil → starts_with_digit (NilEmpty.string_of_uint d).
Proof. destruct d; [contradiction|..]; intros _; cbn; eexists; reflexivity. Qed.

Lemma string_of_uint_length d :
  d ≠ Decimal.Nil → String.length (NilEmpty.string_of_uint d) ≠ 0%nat.
Proof. destruct d; [contradiction|..]; intros _; cbn; discriminate. Qed.

Lemma py_int_numeral (i : Decimal.signed_int) :
  digits_of i ≠ Decimal.Nil →
  (String.length (NilEmpty.string_of_uint (digits_of i)) ≤ 640)%nat →
  py_int limit (NilEmpty.string_of_int i) = Some (Z.of_int i).
Proof.
  intros Hnil Hlen.
  pose proof (scan_digits_uint (digits_of i) zero 0 0) as Hscan.
  rewrite <- uint_value_of_uint in Hscan.
  destruct (py_int_digits (NilEmpty.string_of_uint (digits_of i))
              (Z.of_N (Pos.of_uint (digits_of i)))
              (0 + N.of_nat (String.length (NilEmpty.string_of_uint (digits_of i)))))
    as (Hpos & Hneg & _).
  - apply string_of_uint_starts_with_digit, Hnil.
  - apply Hscan. discriminate.
  - pose proof (string_of_uint_length _ Hnil). lia.
  - unfold _PY_LONG_MAX_STR_DIGITS_THRESHOLD. lia.
  - destruct i as [d|d]; cbn [NilEmpty.string_of_int Z.of_int digits_of] in *;
      unfold Z.of_uint; assumption.
Qed.

Lemma decimal_numeral z :
  decimal z = NilEmpty.string_of_int (Z.to_int z)
  ∧ digits_of (Z.to_int z) ≠ Decimal.Nil.
Proof.
  unfold decimal. destruct z as [|p|p]; cbn [Z.to_int digits_of].
  - split; [reflexivity | discriminate].
  - pose proof (DecimalPos.Unsigned.to_uint_nonnil p) as Hp.
    split; [|exact Hp]. cbn. destruct (Pos.to_uint p); [contradiction|..]; reflexivity.
  - pose proof (DecimalPos.Unsigned.to_uint_nonnil p) as Hp.
    split; [|exact Hp]. cbn. destruct (Pos.to_uint p); [contradiction|..]; reflexivity.
Qed.

Lemma py_int_decimal z :
  (String.length (decimal z) ≤ 640)%nat → py_int limit (decimal z) = Some z.
Proof.
  destruct (decimal_numeral z) as [Hd Hnil]. rewrite Hd. intros Hlen.
  rewrite py_int_numeral; [rewrite DecimalZ.of_to; reflexivity | exact Hnil |].
  destruct (Z.to_int z) as [d|d]; cbn [NilEmpty.string_of_int digits_of String.length] in *;
    lia.
Qed.

End DecimalLiterals.

(** ** The characters of an accepted literal *)

Lemma string_forallb_app p s t :
  string_forallb p (s ++ t) = string_forallb p s && string_forallb p t.
Proof.
  induction s as [|a r IH]; [reflexivity|].
  change (string_forallb p (String a (r ++ t))
          = string_forallb p (String a r) && string_forallb p t).
  cbn [string_forallb]. rewrite IH. apply andb_assoc.
Qed.

Lemma string_forallb_impl (p q : ascii → bool) s :
  (∀ c, p c = true → q c = true) →
  string_forallb p s = true → string_forallb q s = true.
Proof.
  intros Hpq. induction s as [|a r IH]; [reflexivity|]. cbn.
  rewrite !andb_true_iff. intros [Ha Hr]. split; [apply Hpq, Ha | apply IH, Hr].
Qed.

Lemma string_forallb_lacks p c s :
  p c = false → string_forallb p s = true → lacks c s.
Proof.
  intros Hc. induction s as [|a r IH]; [intros _; exact I|]. cbn.
  rewrite andb_true_iff. intros [Ha Hr]. split; [|apply IH, Hr].
  intros ->. congruence.
Qed.

Lemma skip_spaces_forallb p s :
  (∀ c, int_isspace c = true → p c = true) →
  string_forallb p (skip_spaces s) = true → string_forallb p s = true.
Proof.
  intros Hsp. induction s as [|a r IH]; [reflexivity|]. cbn [skip_spaces].
  destruct (int_isspace a) eqn:Ha; [|trivial].
  intros Hr. cbn. rewrite (Hsp a Ha), (IH Hr). reflexivity.
Qed.

Lemma skip_spaces_empty s :
  skip_spaces s = "" → string_forallb int_isspace s = true.
Proof.
  induction s as [|a r IH]; [reflexivity|]. cbn.
  destruct (int_isspace a); [exact IH | discriminate].
Qed.

Lemma scan_digits_forallb p str : ∀ prev acc n v d rest,
  (∀ c, is_Some (digit_value c) → p c = true) → p "_"%char = true →
  scan_digits str prev acc n = Some (v, d, rest) →
  string_forallb p rest = true → string_forallb p str = true.
Proof.
  induction str as [|c r IH]; intros prev acc n v d rest Hdig Hund; cbn.
  - destruct (Ascii.eqb prev "_"); [discriminate|]. intros [= _ _ <-]. trivial.
  - destruct (Ascii.eqb c "_") eqn:Hc.
    + apply Ascii.eqb_eq in Hc as ->.
      destruct (Ascii.eqb prev "_"); [discriminate|].
      intros Hscan Hrest. rewrite Hund. exact (IH _ _ _ _ _ _ Hdig Hund Hscan Hrest).
    + destruct (digit_value c) as [dv|] eqn:Hd.
      * intros Hscan Hrest. rewrite (Hdig c) by (eexists; exact Hd).
        exact (IH _ _ _ _ _ _ Hdig Hund Hscan Hrest).
      * destruct (Ascii.eqb prev "_"); [discriminate|].
        intros [= _ _ <-]. trivial.
Qed.

Lemma split_sign_forallb p s :
  p "+"%char = true → p "-"%char = true →
  string_forallb p (split_sign s).2 = true → string_forallb p s = true.
Proof.
  intros Hplus Hminus. destruct s as [|c r]; [trivial|]. cbn [split_sign].
  destruct (Ascii.eqb c "+") eqn:H1.
  { apply Ascii.eqb_eq in H1 as ->. cbn. rewrite Hplus. trivial. }
  destruct (Ascii.eqb c "-") eqn:H2; [|trivial].
  apply Ascii.eqb_eq in H2 as ->. cbn. rewrite Hminus. trivial.
Qed.

Lemma int_char_space c : int_isspace c = true → int_char c = true.
Proof. intros H. unfold int_char. rewrite H. reflexivity. Qed.

Lemma int_char_digit c : is_Some (digit_value c) → int_char c = true.
Proof.
  intros H. unfold int_char. rewrite (bool_decide_eq_true_2 _ H).
  rewrite orb_true_r. reflexivity.
Qed.

Lemma py_int_chars limit s v :
  py_int limit s = Some v → string_forallb int_char s = true.
Proof.
  unfold py_int. intros H.
  apply (skip_spaces_forallb int_char s int_char_space).
  apply split_sign_forallb; [reflexivity..|].
  destruct (split_sign (skip_spaces s)) as [sign str]. cbn [snd].
  destruct (leading_underscore str); [discriminate|].
  destruct (scan_digits str zero 0 0) as [[[v0 digits] rest]|] eqn:Hscan;
    [|discriminate].
  destruct (digits =? 0)%N; [discriminate|].
  destruct (skip_spaces rest) eqn:Hrest; [|discriminate].
  eapply scan_digits_forallb;
    [exact int_char_digit | reflexivity | exact Hscan |].
  eapply string_forallb_impl; [exact int_char_space|].
  apply skip_spaces_empty, Hrest.
Qed.

Lemma py_int_lacks_colon limit s v : py_int limit s = Some v → lacks ":" s.
Proof.
  intros H. eapply (string_forallb_lacks int_char); [reflexivity|].
  eapply py_int_chars, H.
Qed.

Lemma timecode_chars f1 f2 f3 :
  string_forallb int_char f1 = true → string_forallb int_char f2 = true →
  string_forallb int_char f3 = true →
  string_forallb timecode_char (timecode f1 f2 f3) = true.
Proof.
  intros H1 H2 H3.
  assert (∀ f, string_forallb int_char f = true →
               string_forallb timecode_char f = true) as Hup.
  { intros f. apply string_forallb_impl. intros c Hc. unfold timecode_char.
    rewrite Hc. apply orb_true_r. }
  unfold timecode. rewrite string_forallb_app. cbn [string_forallb].
  rewrite string_forallb_app. cbn [string_forallb].
  rewrite (Hup f1 H1), (Hup f2 H2), (Hup f3 H3). reflexivity.
Qed.

(** * Further properties of the module *)

(** X1. [parse_time_to_seconds] returns exactly for the strings of the form
    [f1:f2:f3] whose three parts are literals accepted by [int]; the result
    is then [h*3600 + m*60 + s] for the three values read, and the module
    state is untouched.  No other string is accepted. *)
Theorem parse_time_to_seconds_shape (limit : N) (time_str : string)
    (st st' : module_state) (v : Z) :
  parse_time_to_seconds limit time_str st = (inr v, st') ↔
  st' = st ∧ ∃ f1 f2 f3 h m s,
    time_str = timecode f1 f2 f3
    ∧ py_int limit f1 = Some h ∧ py_int limit f2 = Some m
    ∧ py_int limit f3 = Some s
    ∧ v = h * 3600 + m * 60 + s.
Proof.
  rewrite parse_ok_iff. split.
  - intros (-> & f1 & f2 & f3 & h & m & s & Hs & H1 & H2 & H3 & ->).
    split; [reflexivity|]. exists f1, f2, f3, h, m, s.
    apply str_split_three in Hs as (-> & _). repeat split; assumption.
  - intros (-> & f1 & f2 & f3 & h & m & s & -> & H1 & H2 & H3 & ->).
    split; [reflexivity|]. exists f1, f2, f3, h, m, s.
    repeat split; try assumption.
    apply str_split_timecode; eapply py_int_lacks_colon; eassumption.
Qed.

(** X2. A timecode whose three fields are digit strings, each at most 640
    digits long, with or without leading zeros and with or without a minus
    sign in front, is converted to the seconds its fields denote as decimal
    numerals: hours times 3600 plus minutes times 60 plus seconds. *)
Theorem parse_time_to_seconds_numerals (limit : N)
    (h m s : Decimal.signed_int) (st : module_state) :
  digits_of h ≠ Decimal.Nil → digits_of m ≠ Decimal.Nil →
  digits_of s ≠ Decimal.Nil →
  (String.length (NilEmpty.string_of_uint (digits_of h)) ≤ 640)%nat →
  (String.length (NilEmpty.string_of_uint (digits_of m)) ≤ 640)%nat →
  (String.length (NilEmpty.string_of_uint (digits_of s)) ≤ 640)%nat →
  parse_time_to_seconds limit
    (timecode (NilEmpty.string_of_int h) (NilEmpty.string_of_int m)
       (NilEmpty.string_of_int s)) st
  = (inr (Z.of_int h * 3600 + Z.of_int m * 60 + Z.of_int s), st).
Proof.
  intros Nh Nm Ns Lh Lm Ls.
  pose proof (py_int_numeral limit h Nh Lh) as Hh.
  pose proof (py_int_numeral limit m Nm Lm) as Hm.
  pose proof (py_int_numeral limit s Ns Ls) as Hs.
  apply parse_ok_iff. split; [reflexivity|].
  eexists _, _, _, _, _, _. split; [|repeat split; eassumption].
  apply str_split_timecode; eapply py_int_lacks_colon; eassumption.
Qed.

Lemma parse_time_to_seconds_numerals_witness :
  parse_time_to_seconds default_limit "01:02:03" initial_state
    = (inr 3723, initial_state)
  ∧ parse_time_to_seconds default_limit "-01:30:00" initial_state
    = (inr (-1800), initial_state).
Proof.
  split.
  - refine (parse_time_to_seconds_numerals default_limit
              (Decimal.Pos (Decimal.D0 (Decimal.D1 Decimal.Nil)))
              (Decimal.Pos (Decimal.D0 (Decimal.D2 Decimal.Nil)))
              (Decimal.Pos (Decimal.D0 (Decimal.D3 Decimal.Nil)))
              initial_state _ _ _ _ _ _);
      first [ discriminate | cbn; lia ].
  - refine (parse_time_to_seconds_numerals default_limit
              (Decimal.Neg (Decimal.D0 (Decimal.D1 Decimal.Nil)))
              (Decimal.Pos (Decimal.D3 (Decimal.D0 Decimal.Nil)))
              (Decimal.Pos (Decimal.D0 (Decimal.D0 Decimal.Nil)))
              initial_state _ _ _ _ _ _);
      first [ discriminate | cbn; lia ].
Defined.

(** X3. Writing three integers in decimal, as [str] does, with colons
    between them and parsing the result gives back [h*3600 + m*60 + s], as
    long as no numeral is longer than 640 characters. *)
Theorem parse_time_to_seconds_decimal (limit : N) (h m s : Z) (st : module_state) :
  (String.length (decimal h) ≤ 640)%nat →
  (String.length (decimal m) ≤ 640)%nat →
  (String.length (decimal s) ≤ 640)%nat →
  parse_time_to_seconds limit (timecode (decimal h) (decimal m) (decimal s)) st
  = (inr (h * 3600 + m * 60 + s), st).
Proof.
  intros Lh Lm Ls.
  pose proof (py_int_decimal limit h Lh) as Hh.
  pose proof (py_int_decimal limit m Lm) as Hm.
  pose proof (py_int_decimal limit s Ls) as Hs.
  apply parse_ok_iff. split; [reflexivity|].
  eexists _, _, _, _, _, _. split; [|repeat split; eassumption].
  apply str_split_timecode; eapply py_int_lacks_colon; eassumption.
Qed.

Lemma parse_time_to_seconds_decimal_witness :
  parse_time_to_seconds default_limit "12:34:56" initial_state
  = (inr (12 * 3600 + 34 * 60 + 56), initial_state).
Proof.
  refine (parse_time_to_seconds_decimal default_limit 12 34 56 initial_state _ _ _);
    cbn; lia.
Defined.

(** X4. An accepted timecode consists only of colons, decimal digits, white
    space, signs and underscores.  A string with any other character, such
    as a decimal point or a letter, is rejected with a format error and the
    state is untouched. *)
Theorem timecode_characters (limit : N) (time_str : string) (st : module_state) :
  (∀ v st', parse_time_to_seconds limit time_str st = (inr v, st') →
            string_forallb timecode_char time_str = true)
  ∧ (string_forallb timecode_char time_str = false →
     ∃ e, parse_time_to_seconds limit time_str st = (inl e, st)
          ∧ is_FormatError e = true).
Proof.
  assert (∀ v st', parse_time_to_seconds limit time_str st = (inr v, st') →
            string_forallb timecode_char time_str = true) as Hok.
  { intros v st' H.
    apply parse_ok_iff in H as (_ & f1 & f2 & f3 & h & m & s & Hs & H1 & H2 & H3 & _).
    apply str_split_three in Hs as (-> & _).
    apply timecode_chars; eapply py_int_chars; eassumption. }
  split; [exact Hok|].
  intros Hbad. destruct (parse_total limit time_str st) as [[v Hv]|[e He]].
  - rewrite (Hok v st Hv) in Hbad. discriminate.
  - exists e. split; [exact He|]. eapply parse_err, He.
Qed.

Lemma timecode_characters_witness :
  ∃ e, parse_time_to_seconds default_limit "00:00:01.5" initial_state
       = (inl e, initial_state) ∧ is_FormatError e = true.
Proof.
  apply (proj2 (timecode_characters default_limit "00:00:01.5" initial_state)).
  reflexivity.
Defined.



(** ** The hook over a run of events *)

(** One call either changes nothing, or handles a finished event and then
    stores its filename and logs one record. *)
Lemma hook_step d st :
  (my_progress_hook d st).2 = st
  ∨ ∃ f, is_finished d ∧ d !! "filename" = Some f
         ∧ my_progress_hook d st = (inr tt, finished_state f st).
Proof.
  rewrite my_progress_hook_eq.
  destruct (d !! "status") as [status|] eqn:Hs; [|left; reflexivity].
  destruct (String.eqb status "finished") eqn:He; [|left; reflexivity].
  apply (is_finished_eqb d status Hs) in He.
  destruct (d !! "filename") as [f|] eqn:Hf; [|left; reflexivity].
  right. exists f. repeat split; assumption.
Qed.

Lemma run_hooks_global_cases events : ∀ st,
  _downloaded_file_path_global (run_hooks events st).2
  = _downloaded_file_path_global st
  ∨ ∃ d f, d ∈ events ∧ is_finished d ∧ d !! "filename" = Some f
           ∧ _downloaded_file_path_global (run_hooks events st).2 = Some f.
Proof.
  induction events as [|d rest IH]; intros st; [left; reflexivity|].
  rewrite run_hooks_cons.
  destruct (hook_step d st) as [Hsame|(f & Hfin & Hf & Hrun)].
  - destruct (my_progress_hook d st) as [[e|[]] st1]; cbn in Hsame; subst st1.
    + left. reflexivity.
    + destruct (IH st) as [Hg|(d' & f & Hin & Hfin & Hf & Hg)]; [left; exact Hg|].
      right. exists d', f.
      split; [apply list_elem_of_further, Hin|]. repeat split; assumption.
  - rewrite Hrun.
    destruct (IH (finished_state f st)) as [Hg|(d' & f' & Hin & Hfin' & Hf' & Hg)].
    + right. exists d, f. split; [apply list_elem_of_here|].
      split; [exact Hfin|]. split; [exact Hf|]. rewrite Hg. reflexivity.
    + right. exists d', f'.
      split; [apply list_elem_of_further, Hin|]. repeat split; assumption.
Qed.

(** X6. After a run over events that carry the keys the hook reads, the log
    is the log before the run followed by one record per finished event, in
    the order of the events, each naming that event's filename.  Whatever
    the events are, the records already logged are kept. *)
Theorem progress_hook_log (events : list (gmap string string)) (st : module_state) :
  (Forall well_formed_event events →
   logger_info_records (run_hooks events st).2
   = (logger_info_records st
      ++ map finished_message (finished_filenames events))%list)
  ∧ logger_info_records st `prefix_of` logger_info_records (run_hooks events st).2.
Proof.
  split.
  - intros Hwf. revert st.
    induction Hwf as [|d rest [[status Hs] Hfile] _ IH]; intros st.
    + cbn. rewrite app_nil_r. reflexivity.
    + rewrite run_hooks_cons. unfold finished_filenames. rewrite filter_cons.
      destruct (decide (is_finished d)) as [Hd|Hd].
      * destruct (Hfile Hd) as [f Hf].
        rewrite (hook_finished d st f Hd Hf), IH.
        cbn [omap list_omap]. rewrite Hf. cbn [map finished_state logger_info_records].
        rewrite <- app_assoc. reflexivity.
      * assert (status ≠ "finished") as Hne.
        { intros ->. apply Hd. exact Hs. }
        rewrite (hook_not_finished d st status Hs Hne). apply IH.
  - revert st. induction events as [|d rest IH]; intros st; [reflexivity|].
    rewrite run_hooks_cons.
    destruct (hook_step d st) as [Hsame|(f & _ & _ & Hrun)].
    + destruct (my_progress_hook d st) as [[e|[]] st1]; cbn in Hsame; subst st1.
      * reflexivity.
      * apply IH.
    + rewrite Hrun. etransitivity; [|apply IH].
      cbn. apply prefix_app_r. reflexivity.
Qed.

Lemma progress_hook_log_witness :
  logger_info_records (run_hooks sample_events initial_state).2
  = [finished_message "out.f137.mp4"; finished_message "out.mp4"].
Proof.
  exact (proj1 (progress_hook_log sample_events initial_state)
           sample_events_well_formed).
Defined.

(** X7. After any run of the hook, over any events and whether or not a call
    raised, the stored path is the one from before the run or the filename
    of a finished event of the run.  In particular a stored path is never
    cleared: once set it stays set. *)
Theorem stored_path_provenance (events : list (gmap string string))
    (st : module_state) :
  (_downloaded_file_path_global (run_hooks events st).2
   = _downloaded_file_path_global st
   ∨ ∃ d f, d ∈ events ∧ is_finished d ∧ d !! "filename" = Some f
            ∧ _downloaded_file_path_global (run_hooks events st).2 = Some f)
  ∧ (is_Some (_downloaded_file_path_global st) →
     is_Some (_downloaded_file_path_global (run_hooks events st).2)).
Proof.
  pose proof (run_hooks_global_cases events st) as Hcases.
  split; [exact Hcases|].
  intros Hset. destruct Hcases as [->|(d & f & _ & _ & _ & ->)]; eauto.
Qed.

Lemma stored_path_provenance_witness :
  is_Some (_downloaded_file_path_global
             (run_hooks sample_progress_events
                (finished_state "first.mp4" initial_state)).2).
Proof.
  apply (proj2 (stored_path_provenance sample_progress_events
                  (finished_state "first.mp4" initial_state))).
  eexists. reflexivity.
Defined.

(** X8. The hook keeps the log and the stored path in step: if the last
    record logged names the stored path (or nothing is stored and nothing
    logged) before a call, the same holds after it, for any event; so it
    holds after every run that starts from the initial state. *)
Theorem log_names_stored_path_invariant :
  log_names_stored_path initial_state
  ∧ (∀ d st, log_names_stored_path st →
             log_names_stored_path (my_progress_hook d st).2)
  ∧ (∀ events st, log_names_stored_path st →
                  log_names_stored_path (run_hooks events st).2).
Proof.
  assert (∀ d st, log_names_stored_path st →
                  log_names_stored_path (my_progress_hook d st).2) as Hstep.
  { intros d st Hst.
    destruct (hook_step d st) as [->|(f & _ & _ & ->)]; [exact Hst|].
    unfold log_names_stored_path. cbn. apply last_snoc. }
  split; [reflexivity|]. split; [exact Hstep|].
  intros events. induction events as [|d rest IH]; intros st Hst; [exact Hst|].
  rewrite run_hooks_cons. specialize (Hstep d st Hst).
  destruct (my_progress_hook d st) as [[e|[]] st1]; cbn in Hstep |- *.
  - exact Hstep.
  - apply IH, Hstep.
Qed.

Lemma log_names_stored_path_invariant_witness :
  log_names_stored_path (run_hooks sample_events initial_state).2.
Proof.
  exact (proj2 (proj2 log_names_stored_path_invariant) sample_events initial_state
           (proj1 log_names_stored_path_invariant)).
Defined.

(** ** The callback and the order of the bounds *)

Lemma range_dict_inj (a b a' b' : Z) :
  ({[ "start_time" := a; "end_time" := b ]} : gmap string Z)
  = {[ "start_time" := a'; "end_time" := b' ]} →
  a = a' ∧ b = b'.
Proof.
  intros Hm. split.
  - apply (f_equal (λ m : gmap string Z, m !! "start_time")) in Hm.
    rewrite !lookup_insert_eq in Hm. congruence.
  - apply (f_equal (λ m : gmap string Z, m !! "end_time")) in Hm.
    rewrite !lookup_insert_ne in Hm by discriminate.
    rewrite !lookup_singleton_eq in Hm. congruence.
Qed.

Lemma single_range_inj {A} (r r' : A) (st st' : module_state) :
  (inr [r] : exn + list A, st) = (inr [r'], st') → r = r'.
Proof. intros [= -> _]. reflexivity. Qed.

(** X9. The callback never orders or compares the two bounds: it returns
    them as parsed.  If it returns the range from [a] to [b] for some
    parameters, then for parameters with 'start_time' and 'end_time'
    exchanged it returns the range from [b] to [a]. *)
Theorem download_ranges_no_ordering (limit : N) (info_dict : gmap string string)
    (ydl ydl' : YoutubeDL) (st : module_state) (a b : Z) :
  params ydl' !! "start_time" = params ydl !! "end_time" →
  params ydl' !! "end_time" = params ydl !! "start_time" →
  download_ranges_callback limit info_dict ydl st
  = (inr [ {[ "start_time" := a; "end_time" := b ]} ], st) →
  download_ranges_callback limit info_dict ydl' st
  = (inr [ {[ "start_time" := b; "end_time" := a ]} ], st).
Proof.
  intros Hstart Hend Hrun.
  destruct (callback_cases ydl) as [Hm|(s & t & Hs & Hsne & Ht & Htne)].
  { rewrite (callback_missing limit info_dict ydl st Hm) in Hrun. discriminate. }
  rewrite (callback_present limit info_dict ydl st s t Hs Hsne Ht Htne) in Hrun.
  rewrite Ht in Hstart. rewrite Hs in Hend.
  rewrite (callback_present limit info_dict ydl' st t s Hstart Htne Hend Hsne).
  rewrite !parse_time_to_seconds_eq in *.
  destruct (unpack3 limit (str_split ":" s)) as [e1|[[h1 m1] s1]]; [discriminate|].
  destruct (unpack3 limit (str_split ":" t)) as [e2|[[h2 m2] s2]]; [discriminate|].
  apply single_range_inj, range_dict_inj in Hrun as [-> ->]. reflexivity.
Qed.

Lemma download_ranges_no_ordering_witness :
  download_ranges_callback default_limit ∅ swapped_ydl initial_state
  = (inr [ {[ "start_time" := 60; "end_time" := 10 ]} ], initial_state).
Proof.
  refine (download_ranges_no_ordering default_limit ∅ sample_ydl swapped_ydl
            initial_state 10 60 _ _ _); reflexivity.
Defined.
